(** * Loging_fastapi: the credential service of [main.py]

    A shallow embedding of the password validator and of the four
    endpoints ([signup], [signin], [forget_password], [reset_password])
    over an explicit model of the [users] table, followed by the
    properties of the credential life cycle. *)

From Stdlib Require Import Ascii String.
From Stdlib.Strings Require Import Byte.
From stdpp Require Import base numbers option list.

Local Open Scope N_scope.

(** ** Python values *)

(** A [str] is a sequence of Unicode code points. *)
Definition char := N.
Definition str := list char.

(** An ASCII literal as a [str]. *)
Definition py (s : string) : str :=
  (fun a => N_of_ascii a) <$> list_ascii_of_string s.

(** The commercial at, ["@"]. *)
Definition at_sign : char := 64.

(** [ch.isupper()] and [ch.isdigit()] on a one-character string are read
    off the interpreter's Unicode database, which is no part of the
    repository: the two tables are taken as parameters, together with
    what they are on the ASCII block. *)
Class UnicodeData := {
  isupper : char -> bool;
  isdigit : char -> bool;
  isupper_ascii : forall c, c < 128 -> isupper c = bool_decide (65 <= c <= 90);
  isdigit_ascii : forall c, c < 128 -> isdigit c = bool_decide (48 <= c <= 57)
}.

(** The database that classifies nothing outside ASCII. *)
#[export] Instance basic_latin : UnicodeData := {
  isupper c := bool_decide (65 <= c <= 90);
  isdigit c := bool_decide (48 <= c <= 57);
  isupper_ascii _ _ := eq_refl;
  isdigit_ascii _ _ := eq_refl
}.

(** Exceptions: the built-in [IndexError], FastAPI's
    [HTTPException(status_code, detail)], and SQLAlchemy's [DBAPIError],
    in which [db.execute] and [db.commit] pass on an error of the database
    driver. *)
Inductive exn :=
  | IndexError
  | HTTPException (status_code : Z) (detail : string)
  | DBAPIError.

(** A call either returns or raises. *)
Inductive result (A : Type) :=
  | Return (a : A)
  | Raise (e : exn).
Arguments Return {A} a.
Arguments Raise {A} e.

#[export] Instance result_ret : MRet result := fun _ a => Return a.
#[export] Instance result_bind : MBind result := fun _ _ f m =>
  match m with
  | Return a => f a
  | Raise e => Raise e
  end.

(** [c in s] for a one-character string [c]. *)
Definition contains (s : str) (c : char) : bool := bool_decide (c ∈ s).

(** [s[i]] for a non-negative index. *)
Definition getitem {A} (s : list A) (i : nat) : result A :=
  match s !! i with
  | Some c => Return c
  | None => Raise IndexError
  end.

(** ** UTILS *)

Section Validator.
Context `{UnicodeData}.

(** [validate_password], main.py lines 40-53. *)
Definition validate_password (password : str) : result bool :=
  c ← getitem password 0;
  if negb (isupper c) then Return false
  else if negb (contains password at_sign) then Return false
  else if negb (existsb isdigit password) then Return false
  else Return true.
End Validator.

(** [secrets.token_hex(nbytes)]: [nbytes] bytes of the operating system's
    random source, each rendered as two lower-case hexadecimal digits.
    The source is an input of the model: [urandom i] is the [i]-th byte
    it delivers to the call. *)
Definition hexdigit (n : N) : char :=
  if n <? 10 then 48 + n else 87 + n.

Definition hexlify (bs : list byte) : str :=
  b ← bs; [hexdigit (Byte.to_N b / 16); hexdigit (Byte.to_N b mod 16)].

Definition token_bytes (urandom : nat -> byte) (nbytes : nat) : list byte :=
  urandom <$> seq 0 nbytes.

Definition token_hex (urandom : nat -> byte) (nbytes : nat) : str :=
  hexlify (token_bytes urandom nbytes).

(** The digits [hexlify] writes. *)
Definition is_hexdigit (c : char) : Prop :=
  48 <= c <= 57 \/ 97 <= c <= 102.

(** ** MODELS *)

(** A row of the [users] table, main.py lines 12-18: [reset_token] is the
    one nullable column. *)
Module User.
Record t := mk {
  id : Z;
  email : str;
  password : str;
  reset_token : option str
}.
End User.

(** The database: the rows of [users] in the order a query without
    [ORDER BY] returns them (PostgreSQL reads the heap: a new row comes
    last, and so does the new version of an updated row), and the next
    value of the sequence behind the integer primary key. *)
Record Db := {
  users : list User.t;
  users_id_seq : Z
}.

Definition empty_db : Db := {| users := []; users_id_seq := 1 |}.

(** U+0000, the one code point a PostgreSQL [text] value cannot hold. *)
Definition NUL : char := 0.

(** A string bound as a parameter of a statement: the database refuses
    the statement when the string has U+0000 in it, and SQLAlchemy raises
    [DBAPIError]. The e-mails are not bound through [bind]: they reach the
    endpoints as [EmailStr] values, which the decoding of the request has
    validated as addresses, and an address has no U+0000. *)
Definition bind (v : str) : result unit :=
  if contains v NUL then Raise DBAPIError else Return tt.

(** The rows [select(User).where(User.email == email)] selects. *)
Definition where_email (email : str) (db : Db) : list User.t :=
  filter (fun u => User.email u = email) (users db).

(** The rows [select(User).where(User.reset_token == token)] selects: a
    [NULL] column equals no string. *)
Definition where_reset_token (token : str) (db : Db) : list User.t :=
  filter (fun u => User.reset_token u = Some token) (users db).

(** [await db.execute(select(User).where(User.reset_token == token))]:
    the token is bound, then the rows are read. *)
Definition execute_where_reset_token (token : str) (db : Db)
  : result (list User.t) :=
  match bind token with
  | Raise e => Raise e
  | Return _ => Return (where_reset_token token db)
  end.

(** [q.scalars().first()] *)
Definition first (q : list User.t) : option User.t := head q.

(** The database after the [INSERT]: the new row last, without a token,
    its primary key drawn from the sequence. *)
Definition inserted (email password : str) (db : Db) : Db :=
  {| users := users db ++ [User.mk (users_id_seq db) email password None];
     users_id_seq := users_id_seq db + 1 |}.

(** [db.add(User(email=..., password=...)); await db.commit()]: one
    [INSERT] that binds the password; a refused statement writes nothing
    and draws no key. *)
Definition add_commit (email password : str) (db : Db) : result Db :=
  match bind password with
  | Raise e => Raise e
  | Return _ => Return (inserted email password db)
  end.

(** What [UPDATE users SET ... WHERE users.id = pk] does to one row. *)
Definition update_row (pk : Z) (f : User.t -> User.t) (u : User.t) : User.t :=
  if decide (User.id u = pk) then f u else u.

(** The table after the [UPDATE]: the rows it leaves alone, in their
    order, then the new versions of the rows it changes. *)
Definition update_rows (pk : Z) (f : User.t -> User.t) (rows : list User.t)
  : list User.t :=
  filter (fun u => User.id u <> pk) rows
  ++ (f <$> filter (fun u => User.id u = pk) rows).

Definition updated (pk : Z) (f : User.t -> User.t) (db : Db) : Db :=
  {| users := update_rows pk f (users db);
     users_id_seq := users_id_seq db |}.

(** [await db.commit()] after attribute assignments to a loaded row: one
    [UPDATE ... WHERE users.id = pk] that binds the string [value]
    assigned; a refused statement writes nothing. *)
Definition update_commit (pk : Z) (value : str) (f : User.t -> User.t) (db : Db)
  : result Db :=
  match bind value with
  | Raise e => Raise e
  | Return _ => Return (updated pk f db)
  end.

Definition set_reset_token (v : option str) (u : User.t) : User.t :=
  User.mk (User.id u) (User.email u) (User.password u) v.

Definition set_password (v : str) (u : User.t) : User.t :=
  User.mk (User.id u) (User.email u) v (User.reset_token u).

(** ** API *)

(** The JSON object an endpoint returns. *)
Inductive body :=
  | Message (message : string)
  | ResetToken (reset_token : str).

Section Api.
Context `{UnicodeData}.

(** [POST /signup], main.py lines 67-83. *)
Definition signup (email password : str) (db : Db) : result body * Db :=
  match validate_password password with
  | Raise e => (Raise e, db)
  | Return false =>
      (Raise (HTTPException 400
         "Password must start with a capital letter, contain '@' and at least one number."),
       db)
  | Return true =>
      match first (where_email email db) with
      | Some existing_user =>
          (Raise (HTTPException 400 "Email already registered"), db)
      | None =>
          match add_commit email password db with
          | Raise e => (Raise e, db)
          | Return db' => (Return (Message "User registered successfully"), db')
          end
      end
  end.

(** [POST /signin], main.py lines 86-93. *)
Definition signin (email password : str) (db : Db) : result body * Db :=
  match first (where_email email db) with
  | None => (Raise (HTTPException 401 "Invalid credentials"), db)
  | Some db_user =>
      if bool_decide (User.password db_user <> password)
      then (Raise (HTTPException 401 "Invalid credentials"), db)
      else (Return (Message "Login successful"), db)
  end.

(** [POST /forget-password], main.py lines 96-106. *)
Definition forget_password (email : str) (urandom : nat -> byte) (db : Db)
  : result body * Db :=
  match first (where_email email db) with
  | None => (Raise (HTTPException 404 "Email not found"), db)
  | Some db_user =>
      let token := token_hex urandom 16 in
      match update_commit (User.id db_user) token
              (set_reset_token (Some token)) db with
      | Raise e => (Raise e, db)
      | Return db' => (Return (ResetToken token), db')
      end
  end.

(** [POST /reset-password], main.py lines 109-125. *)
Definition reset_password (token new_password : str) (db : Db)
  : result body * Db :=
  match execute_where_reset_token token db with
  | Raise e => (Raise e, db)
  | Return q =>
      match first q with
      | None => (Raise (HTTPException 400 "Invalid token"), db)
      | Some db_user =>
          match validate_password new_password with
          | Raise e => (Raise e, db)
          | Return false =>
              (Raise (HTTPException 400
                 "Password must start with a capital letter, contain '@' and at least one number."),
               db)
          | Return true =>
              match update_commit (User.id db_user) new_password
                      (fun u => set_reset_token None
                                  (set_password new_password u)) db with
              | Raise e => (Raise e, db)
              | Return db' =>
                  (Return (Message "Password reset successfully"), db')
              end
          end
      end
  end.

(** A request to the service; [ForgetPassword] carries the bytes the
    random source delivers while it is served. *)
Inductive request :=
  | Signup (email password : str)
  | Signin (email password : str)
  | ForgetPassword (email : str) (urandom : nat -> byte)
  | ResetPassword (token new_password : str).

Definition handle (r : request) (db : Db) : result body * Db :=
  match r with
  | Signup email password => signup email password db
  | Signin email password => signin email password db
  | ForgetPassword email urandom => forget_password email urandom db
  | ResetPassword token new_password => reset_password token new_password db
  end.

(** The database after serving the requests one after the other. *)
Fixpoint run (rs : list request) (db : Db) : Db :=
  match rs with
  | [] => db
  | r :: rs => run rs (handle r db).2
  end.

End Api.

(** The error kinds of the service, as the responses that carry them. *)
Definition WeakPassword : exn :=
  HTTPException 400
    "Password must start with a capital letter, contain '@' and at least one number.".
Definition EmailTaken : exn := HTTPException 400 "Email already registered".
Definition InvalidCredentials : exn := HTTPException 401 "Invalid credentials".
Definition EmailNotFound : exn := HTTPException 404 "Email not found".
Definition InvalidToken : exn := HTTPException 400 "Invalid token".

(** ** The invariants and the scenarios *)

(** The constraints the schema declares: the primary key is unique and
    was drawn from the sequence, and [email] is [UNIQUE]. *)
Definition schema_ok (db : Db) : Prop :=
  NoDup (User.id <$> users db)
  /\ (forall u, u ∈ users db -> (User.id u < users_id_seq db)%Z)
  /\ NoDup (User.email <$> users db).

(** At most one row holds any given token. *)
Definition token_unique (db : Db) : Prop :=
  forall t, (length (where_reset_token t db) <= 1)%nat.

(** The token a reset request is about to store is held by no row but
    those of the user it is issued to. *)
Definition issues_fresh (r : request) (db : Db) : bool :=
  match r with
  | ForgetPassword email urandom =>
      match first (where_email email db) with
      | None => true
      | Some db_user =>
          forallb
            (fun v => bool_decide
               (User.reset_token v = Some (token_hex urandom 16) ->
                User.id v = User.id db_user))
            (users db)
      end
  | _ => true
  end.

Section Fresh.
Context `{UnicodeData}.

(** Every token issued while the requests are served is fresh at the time
    it is issued. *)
Fixpoint fresh_tokens (rs : list request) (db : Db) : bool :=
  match rs with
  | [] => true
  | r :: rs => issues_fresh r db && fresh_tokens rs (handle r db).2
  end.

End Fresh.

(** A string, a request in ASCII. *)
Definition ascii_only (s : str) : bool := forallb (fun c => c <? 128) s.

Definition ascii_request (r : request) : bool :=
  match r with
  | Signup _ password => ascii_only password
  | ResetPassword _ new_password => ascii_only new_password
  | _ => true
  end.

Definition alice : str := py "alice@example.com".
Definition bob : str := py "bob@example.com".
Definition secret : str := py "Secret1@".
Definition newpass : str := py "NewPass2@".

(** Two draws of the random source. *)
Definition zeros : nat -> byte := fun _ => x00.
Definition ones : nat -> byte := fun _ => x01.

(** The token of the draw [zeros]: 32 digits ["0"]. *)
Definition T0 : str := token_hex zeros 16.

(** Alice, registered. *)
Definition db_alice : Db :=
  {| users := [User.mk 1 alice secret None]; users_id_seq := 2 |}.

(** Alice with the reset token [T0] pending. *)
Definition db_pending : Db :=
  {| users := [User.mk 1 alice secret (Some T0)]; users_id_seq := 2 |}.

(** Alice and Bob register and each asks for a reset; the random source
    delivers the same bytes both times. *)
Definition collision : list request :=
  [Signup alice secret; Signup bob secret;
   ForgetPassword alice zeros; ForgetPassword bob zeros].

Definition db_collision : Db :=
  {| users := [User.mk 1 alice secret (Some T0); User.mk 2 bob secret (Some T0)];
     users_id_seq := 3 |}.

(** The scenario of the specification, with a second user. *)
Definition scenario : list request :=
  [Signup alice secret; Signup bob secret; Signin alice secret;
   ForgetPassword alice zeros; ForgetPassword bob ones;
   ResetPassword T0 newpass; Signin alice newpass].



(** The primary keys came out of the sequence, which starts at 1. *)
Definition keys_drawn (db : Db) : Prop :=
  (1 <= users_id_seq db)%Z
  /\ forall u, u ∈ users db -> (1 <= User.id u < users_id_seq db)%Z.

(** ** Properties of the validator *)

Section ValidatorFacts.
Context `{UnicodeData}.

Lemma validate_password_cons c rest :
  validate_password (c :: rest) =
    Return (isupper c
            && contains (c :: rest) at_sign
            && existsb isdigit (c :: rest)).
Proof.
  unfold validate_password.
  change (getitem (c :: rest) 0) with (Return c).
  generalize (contains (c :: rest) at_sign), (existsb isdigit (c :: rest)).
  intros b1 b2. unfold mbind, result_bind.
  by destruct (isupper c), b1, b2.
Qed.

Lemma validate_password_nil : validate_password [] = Raise IndexError.
Proof. reflexivity. Qed.

Lemma existsb_elem_of {A} (f : A -> bool) (l : list A) :
  existsb f l = true <-> exists x, x ∈ l /\ f x = true.
Proof.
  rewrite existsb_exists. setoid_rewrite list_elem_of_In. done.
Qed.

(** C1. For every password [p], the validator returns [True] exactly when
    [p] is non-empty, its first character is upper case
    ([str.isupper]), it contains ['@'] and it contains a digit
    ([str.isdigit]). *)
Theorem validate_password_true_iff (p : str) :
  validate_password p = Return true <->
    p <> []
    /\ (exists c, p !! 0%nat = Some c /\ isupper c = true)
    /\ at_sign ∈ p
    /\ (exists d, d ∈ p /\ isdigit d = true).
Proof.
  destruct p as [|c rest].
  - rewrite validate_password_nil. split; [discriminate|].
    intros [? _]. congruence.
  - rewrite validate_password_cons. split.
    + intros [= Hb].
      apply andb_true_iff in Hb as [Hb Hd].
      apply andb_true_iff in Hb as [Hu Ha].
      apply bool_decide_eq_true in Ha.
      apply (existsb_elem_of isdigit (c :: rest)) in Hd.
      repeat split; [discriminate | by exists c | done | done].
    + intros (_ & (c' & [= <-] & Hu) & Ha & Hd).
      apply existsb_elem_of in Hd.
      apply (bool_decide_eq_true_2 _) in Ha. unfold contains.
      by rewrite Hu, Ha, Hd.
Qed.

(** C2. On the empty password the validator indexes the string and
    raises [IndexError]; it does not return [False]. *)
Theorem validate_password_empty_raises :
  validate_password [] = Raise IndexError
  /\ validate_password [] <> Return false.
Proof. split; [reflexivity | discriminate]. Qed.

End ValidatorFacts.

(** ** Queries and writes *)

Section Queries.
Context {A B : Type} `{EqDecision B}.
Implicit Types (f : A -> B) (l : list A) (k : B).

Lemma head_filter_None (P : A -> Prop) `{!forall x, Decision (P x)} l :
  head (filter P l) = None <-> forall x, x ∈ l -> ~ P x.
Proof.
  induction l as [|a l IH]; simpl.
  - split; [intros _ x Hx; by apply elem_of_nil in Hx | done].
  - rewrite filter_cons. destruct (decide (P a)) as [Ha|Ha]; simpl.
    + split; [discriminate|]. intros Hall. destruct (Hall a); [left | done].
    + rewrite IH. split.
      * intros Hall x [->|Hx]%elem_of_cons; auto.
      * intros Hall x Hx. apply Hall. by right.
Qed.

Lemma head_filter_Some_inv (P : A -> Prop) `{!forall x, Decision (P x)} l x :
  head (filter P l) = Some x -> x ∈ l /\ P x.
Proof.
  intros Hx. apply head_Some_elem_of in Hx.
  by apply list_elem_of_filter in Hx as [? ?].
Qed.

Lemma head_filter_is_Some (P : A -> Prop) `{!forall x, Decision (P x)} l x :
  x ∈ l -> P x -> exists y, head (filter P l) = Some y.
Proof.
  intros Hx HP. destruct (head (filter P l)) as [y|] eqn:E; [by exists y|].
  by destruct (proj1 (head_filter_None P l) E x Hx).
Qed.

(** A column under a [UNIQUE] constraint selects at most one row, and the
    query finds every row that has the value. *)
Lemma head_filter_unique f l k x :
  NoDup (f <$> l) -> x ∈ l -> f x = k ->
  head (filter (fun u => f u = k) l) = Some x.
Proof.
  induction l as [|a l IH]; simpl; intros Hnd Hx Hk.
  - by apply elem_of_nil in Hx.
  - apply NoDup_cons in Hnd as [Ha Hnd]. rewrite filter_cons.
    apply elem_of_cons in Hx as [->|Hx].
    + by rewrite decide_True.
    + rewrite decide_False; [by apply IH|].
      intros Hak. apply Ha. rewrite Hak, <- Hk.
      by apply list_elem_of_fmap_2.
Qed.

Lemma length_filter_unique f l k :
  NoDup (f <$> l) -> (length (filter (fun u => f u = k) l) <= 1)%nat.
Proof.
  induction l as [|a l IH]; simpl; intros Hnd; [lia|].
  apply NoDup_cons in Hnd as [Ha Hnd]. rewrite filter_cons.
  destruct (decide (f a = k)) as [Hak|Hak]; [|by apply IH].
  assert (filter (fun u => f u = k) l = []) as ->; [|simpl; lia].
  apply head_None, (head_filter_None (fun u => f u = k)). intros x Hx Hxk.
  apply Ha. rewrite Hak, <- Hxk. by apply list_elem_of_fmap_2.
Qed.

Lemma length_filter_fmap_le (P Q : A -> Prop)
    `{!forall x, Decision (P x)} `{!forall x, Decision (Q x)} (g : A -> A) l :
  (forall x, x ∈ l -> P (g x) -> Q x) ->
  (length (filter P (g <$> l)) <= length (filter Q l))%nat.
Proof.
  induction l as [|a l IH]; intros Hg; [done|].
  rewrite fmap_cons, !filter_cons.
  assert (length (filter P (g <$> l)) <= length (filter Q l))%nat as IH'.
  { apply IH. intros x Hx. apply Hg. by right. }
  destruct (decide (P (g a))) as [Ha|Ha].
  - rewrite decide_True by (apply Hg; [left | done]). simpl. lia.
  - destruct (decide (Q a)); simpl; lia.
Qed.

End Queries.

(** ** Reset tokens *)

Lemma hexdigit_is_hexdigit n : n < 16 -> is_hexdigit (hexdigit n).
Proof.
  intros Hn. unfold is_hexdigit, hexdigit.
  destruct (N.ltb_spec n 10); lia.
Qed.

Lemma hexdigit_inj m n : m < 16 -> n < 16 -> hexdigit m = hexdigit n -> m = n.
Proof.
  unfold hexdigit. intros Hm Hn.
  destruct (N.ltb_spec m 10), (N.ltb_spec n 10); lia.
Qed.

Lemma hexlify_cons b bs :
  hexlify (b :: bs) =
    hexdigit (Byte.to_N b / 16) :: hexdigit (Byte.to_N b mod 16) :: hexlify bs.
Proof. reflexivity. Qed.

Lemma length_hexlify bs : length (hexlify bs) = (2 * length bs)%nat.
Proof.
  induction bs as [|b bs IH]; [done|].
  rewrite hexlify_cons. simpl. lia.
Qed.

Lemma hexlify_hexdigits bs : Forall is_hexdigit (hexlify bs).
Proof.
  induction bs as [|b bs IH]; [by constructor|].
  rewrite hexlify_cons. pose proof (Byte.to_N_bounded b) as Hb.
  apply Forall_cons_2; [|apply Forall_cons_2; [|done]];
    apply hexdigit_is_hexdigit.
  - apply N.Div0.div_lt_upper_bound. lia.
  - apply N.mod_lt. lia.
Qed.

Lemma byte_to_N_inj b1 b2 : Byte.to_N b1 = Byte.to_N b2 -> b1 = b2.
Proof.
  intros Hb. pose proof (Byte.of_to_N b1) as H1.
  rewrite Hb, Byte.of_to_N in H1. congruence.
Qed.

Lemma hexlify_inj bs1 bs2 : hexlify bs1 = hexlify bs2 -> bs1 = bs2.
Proof.
  revert bs2. induction bs1 as [|b1 bs1 IH]; intros [|b2 bs2]; try done.
  rewrite !hexlify_cons. intros [= Hhi Hlo Hrest].
  pose proof (Byte.to_N_bounded b1) as Hb1.
  pose proof (Byte.to_N_bounded b2) as Hb2.
  apply hexdigit_inj in Hhi;
    [| apply N.Div0.div_lt_upper_bound; lia..].
  apply hexdigit_inj in Hlo; [| apply N.mod_lt; lia..].
  f_equal; [|by apply IH].
  apply byte_to_N_inj.
  rewrite (N.div_mod (Byte.to_N b1) 16), (N.div_mod (Byte.to_N b2) 16) by lia.
  by rewrite Hhi, Hlo.
Qed.

Lemma length_token_bytes urandom n : length (token_bytes urandom n) = n.
Proof. unfold token_bytes. by rewrite length_fmap, length_seq. Qed.

Lemma length_token_hex urandom n : length (token_hex urandom n) = (2 * n)%nat.
Proof. unfold token_hex. by rewrite length_hexlify, length_token_bytes. Qed.

Lemma token_hex_inj u1 u2 n :
  token_hex u1 n = token_hex u2 n -> token_bytes u1 n = token_bytes u2 n.
Proof. apply hexlify_inj. Qed.

Lemma hexdigit_not_NUL c : is_hexdigit c -> c <> NUL.
Proof. unfold is_hexdigit, NUL. lia. Qed.

Lemma token_hex_not_NUL urandom n : NUL ∉ token_hex urandom n.
Proof.
  intros Hin. pose proof (hexlify_hexdigits (token_bytes urandom n)) as Hhex.
  rewrite Forall_forall in Hhex.
  exact (hexdigit_not_NUL NUL (Hhex NUL Hin) eq_refl).
Qed.

Lemma token_hex_bytes u1 u2 n :
  token_hex u1 n = token_hex u2 n <-> forall i, (i < n)%nat -> u1 i = u2 i.
Proof.
  split.
  - intros Ht%token_hex_inj i Hi. unfold token_bytes in Ht.
    assert (seq 0 n !! i = Some i) as Hseq by by apply lookup_seq_lt.
    pose proof (f_equal (fun l => l !! i) Ht) as Hi'. simpl in Hi'.
    rewrite !list_lookup_fmap, Hseq in Hi'. simpl in Hi'. congruence.
  - intros Hbytes. unfold token_hex, token_bytes. f_equal.
    apply list_fmap_ext. intros i k Hk.
    apply lookup_seq in Hk as [-> Hk]. by apply Hbytes.
Qed.

(** ** Binding and writing *)

Lemma bind_ok v : NUL ∉ v -> bind v = Return tt.
Proof.
  intros Hv. unfold bind, contains. by rewrite bool_decide_eq_false_2.
Qed.

Lemma bind_refused v : NUL ∈ v -> bind v = Raise DBAPIError.
Proof.
  intros Hv. unfold bind, contains. by rewrite bool_decide_eq_true_2.
Qed.

Lemma bind_cases v :
  ((NUL ∉ v) /\ bind v = Return tt) \/ ((NUL ∈ v) /\ bind v = Raise DBAPIError).
Proof.
  destruct (decide (NUL ∈ v)) as [Hv|Hv];
    [right; split; [done | by apply bind_refused]
    | left; split; [done | by apply bind_ok]].
Qed.

(** An [UPDATE] changes the rows as a map over the table would, up to
    their order. *)
Lemma update_rows_Permutation pk f rows :
  update_rows pk f rows ≡ₚ update_row pk f <$> rows.
Proof.
  unfold update_rows. induction rows as [|a rows IH]; [done|].
  rewrite !filter_cons, (fmap_cons (update_row pk f)).
  destruct (decide (User.id a = pk)) as [Ha|Ha].
  - rewrite decide_False by (by intros []). rewrite fmap_cons.
    rewrite <- Permutation_middle.
    replace (update_row pk f a) with (f a)
      by (unfold update_row; by rewrite decide_True).
    apply perm_skip, IH.
  - rewrite decide_True by done.
    replace (update_row pk f a) with a
      by (unfold update_row; by rewrite decide_False).
    apply perm_skip, IH.
Qed.

Lemma elem_of_update_rows pk f rows w :
  w ∈ update_rows pk f rows <-> exists v, v ∈ rows /\ w = update_row pk f v.
Proof.
  rewrite update_rows_Permutation, list_elem_of_fmap.
  split; intros (v & Hv1 & Hv2); by exists v.
Qed.

Lemma fmap_update_rows {B} (g : User.t -> B) pk f rows :
  (forall v, g (f v) = g v) ->
  g <$> update_rows pk f rows ≡ₚ g <$> rows.
Proof.
  intros Hg. rewrite update_rows_Permutation, <- list_fmap_compose.
  erewrite list_fmap_ext; [done|]. intros i v _. simpl. unfold update_row.
  by destruct (decide _).
Qed.

Lemma length_filter_update_rows (P : User.t -> Prop)
    `{!forall x, Decision (P x)} pk f rows :
  length (filter P (update_rows pk f rows))
  = length (filter P (update_row pk f <$> rows)).
Proof. by rewrite update_rows_Permutation. Qed.

(** ** The endpoints, one by one *)

Lemma first_where_email_None e db :
  first (where_email e db) = None <->
  forall u, u ∈ users db -> User.email u <> e.
Proof. apply (head_filter_None (fun u => User.email u = e)). Qed.

Lemma first_where_email_Some e db u :
  first (where_email e db) = Some u -> u ∈ users db /\ User.email u = e.
Proof. apply (head_filter_Some_inv (fun u => User.email u = e)). Qed.

Lemma first_where_email_unique e db u :
  NoDup (User.email <$> users db) -> u ∈ users db -> User.email u = e ->
  first (where_email e db) = Some u.
Proof. apply (head_filter_unique User.email). Qed.


Lemma first_where_reset_token_Some t db u :
  first (where_reset_token t db) = Some u ->
  u ∈ users db /\ User.reset_token u = Some t.
Proof. apply (head_filter_Some_inv (fun u => User.reset_token u = Some t)). Qed.

Lemma first_where_reset_token_held t db u :
  u ∈ users db -> User.reset_token u = Some t ->
  exists y, first (where_reset_token t db) = Some y.
Proof. apply (head_filter_is_Some (fun v => User.reset_token v = Some t)). Qed.

Lemma NoDup_fmap_elem_inj {A B} (f : A -> B) (l : list A) (x y : A) :
  NoDup (f <$> l) -> x ∈ l -> y ∈ l -> f x = f y -> x = y.
Proof.
  induction l as [|a l IH]; simpl; intros Hnd Hx Hy Hxy.
  - by apply elem_of_nil in Hx.
  - apply NoDup_cons in Hnd as [Ha Hnd].
    apply elem_of_cons in Hx as [->|Hx], Hy as [->|Hy]; [done| | |by apply IH].
    + destruct Ha. rewrite Hxy. by apply list_elem_of_fmap_2.
    + destruct Ha. rewrite <- Hxy. by apply list_elem_of_fmap_2.
Qed.

Lemma update_row_email pk f u :
  (forall v, User.email (f v) = User.email v) ->
  User.email (update_row pk f u) = User.email u.
Proof. intros Hf. unfold update_row. by destruct (decide _). Qed.

Lemma update_row_id pk f u :
  (forall v, User.id (f v) = User.id v) ->
  User.id (update_row pk f u) = User.id u.
Proof. intros Hf. unfold update_row. by destruct (decide _). Qed.

(** The e-mails and the keys of the table after an [UPDATE] of other
    columns. *)
Lemma emails_updated pk f db :
  (forall v, User.email (f v) = User.email v) ->
  User.email <$> users (updated pk f db) ≡ₚ User.email <$> users db.
Proof. apply fmap_update_rows. Qed.

Lemma ids_updated pk f db :
  (forall v, User.id (f v) = User.id v) ->
  User.id <$> users (updated pk f db) ≡ₚ User.id <$> users db.
Proof. apply fmap_update_rows. Qed.

Lemma elem_of_updated pk f db w :
  w ∈ users (updated pk f db) <->
  exists v, v ∈ users db /\ w = update_row pk f v.
Proof. apply elem_of_update_rows. Qed.

(** Under the [UNIQUE] constraint the row an e-mail selects after an
    [UPDATE] is the new version of the row it selected before. *)
Lemma first_where_email_updated e pk f db u :
  (forall v, User.email (f v) = User.email v) ->
  NoDup (User.email <$> users db) ->
  u ∈ users db -> User.email u = e ->
  first (where_email e (updated pk f db)) = Some (update_row pk f u).
Proof.
  intros Hf Hnd Hu He. apply first_where_email_unique.
  - by rewrite emails_updated.
  - apply elem_of_updated. by exists u.
  - by rewrite update_row_email.
Qed.

Lemma first_where_email_updated_None e pk f db :
  (forall v, User.email (f v) = User.email v) ->
  first (where_email e db) = None ->
  first (where_email e (updated pk f db)) = None.
Proof.
  intros Hf Hno. apply first_where_email_None.
  intros w (v & Hv & ->)%elem_of_updated. rewrite update_row_email by done.
  by apply (proj1 (first_where_email_None e db) Hno).
Qed.

Section Endpoints.
Context `{UnicodeData}.

(** *** signup *)

(** C4. A sign-up with the empty password raises [IndexError] out of the
    validator, whatever the e-mail and the database: neither
    [WeakPassword] nor a new row. *)
Theorem signup_empty_password (e : str) (db : Db) :
  signup e [] db = (Raise IndexError, db)
  /\ (signup e [] db).1 <> Raise WeakPassword
  /\ (signup e [] db).1 <> Raise EmailTaken
  /\ forall b, (signup e [] db).1 <> Return b.
Proof. repeat split; [discriminate..|]. intros b. discriminate. Qed.





(** What a sign-up leaves behind: the database as it was, or one more
    row. *)
Lemma signup_db e p db :
  (signup e p db).2 = db
  \/ ((signup e p db).2 = inserted e p db
      /\ (signup e p db).1 = Return (Message "User registered successfully")
      /\ first (where_email e db) = None).
Proof.
  unfold signup, add_commit.
  destruct (validate_password p) as [[|]|]; [|by left..].
  destruct (first (where_email e db)); [by left|].
  destruct (bind p); [by right | by left].
Qed.

(** *** signin *)

Lemma signin_db e p db : (signin e p db).2 = db.
Proof.
  unfold signin. destruct (first _); [|done]. by destruct (bool_decide _).
Qed.

Lemma signin_first e p db :
  (signin e p db).1 =
    match first (where_email e db) with
    | Some u =>
        if bool_decide (User.password u = p)
        then Return (Message "Login successful")
        else Raise InvalidCredentials
    | None => Raise InvalidCredentials
    end.
Proof.
  unfold signin. destruct (first _) as [u|]; [|done].
  destruct (decide (User.password u = p)) as [Hp|Hp].
  - rewrite bool_decide_eq_false_2, bool_decide_eq_true_2; [done..|].
    by intros [].
  - by rewrite bool_decide_eq_true_2, bool_decide_eq_false_2.
Qed.

(** C5. On a table that meets its [UNIQUE] constraint on [email], a
    sign-in succeeds exactly when some user has the e-mail and that user's
    stored password equals the supplied one; otherwise it raises the one
    error [InvalidCredentials], for an unknown e-mail as for a wrong
    password. *)
Theorem signin_spec (e p : str) (db : Db) :
  NoDup (User.email <$> users db) ->
  ((signin e p db).1 = Return (Message "Login successful") <->
     exists u, u ∈ users db /\ User.email u = e /\ User.password u = p)
  /\ ((signin e p db).1 = Return (Message "Login successful")
      \/ (signin e p db).1 = Raise InvalidCredentials)
  /\ ((forall u, u ∈ users db -> User.email u <> e) ->
      (signin e p db).1 = Raise InvalidCredentials)
  /\ (forall u, u ∈ users db -> User.email u = e -> User.password u <> p ->
      (signin e p db).1 = Raise InvalidCredentials).
Proof.
  intros Hnd. repeat split.
  - unfold signin. destruct (first (where_email e db)) as [u|] eqn:E.
    + apply first_where_email_Some in E as [Hu He].
      destruct (bool_decide_reflect (User.password u <> p)) as [Hp|Hp];
        [discriminate|].
      intros _. exists u. repeat split; [done..|].
      by destruct (decide (User.password u = p)).
    + discriminate.
  - intros (u & Hu & He & Hp). unfold signin.
    rewrite (first_where_email_unique e db u Hnd Hu He).
    rewrite bool_decide_eq_false_2; [done|]. by intros [].
  - unfold signin. destruct (first _); [|by right].
    destruct (bool_decide _); [by right | by left].
  - intros Hno. unfold signin.
    apply first_where_email_None in Hno. by rewrite Hno.
  - intros u Hu He Hp. unfold signin.
    rewrite (first_where_email_unique e db u Hnd Hu He).
    by rewrite bool_decide_eq_true_2.
Qed.

End Endpoints.

(** *** forget_password *)

Lemma forget_password_not_found e urandom db :
  first (where_email e db) = None ->
  forget_password e urandom db = (Raise EmailNotFound, db).
Proof. intros He. unfold forget_password. by rewrite He. Qed.

Lemma forget_password_found e urandom db u :
  first (where_email e db) = Some u ->
  forget_password e urandom db =
    (Return (ResetToken (token_hex urandom 16)),
     updated (User.id u) (set_reset_token (Some (token_hex urandom 16))) db).
Proof.
  intros He. unfold forget_password, update_commit. rewrite He.
  by rewrite (bind_ok _ (token_hex_not_NUL urandom 16)).
Qed.

Lemma forget_password_db e urandom db :
  (forget_password e urandom db).2 = db
  \/ exists u, first (where_email e db) = Some u
       /\ (forget_password e urandom db).1 =
            Return (ResetToken (token_hex urandom 16))
       /\ (forget_password e urandom db).2 =
            updated (User.id u)
              (set_reset_token (Some (token_hex urandom 16))) db.
Proof.
  destruct (first (where_email e db)) as [u|] eqn:E.
  - right. exists u. split; [done|]. by rewrite (forget_password_found _ _ _ u).
  - left. by rewrite forget_password_not_found.
Qed.

(** C6. On a table that meets its [UNIQUE] constraint on [email], a reset
    request for an unknown e-mail raises [EmailNotFound]; for a known one
    it returns a token of 32 hexadecimal digits made of the first 16 bytes
    of the random source, two draws giving the same token exactly when
    those bytes agree; the user's row holds that same token afterwards and
    the rows with another key are as before. *)
Theorem forget_password_spec (e : str) (urandom : nat -> byte) (db : Db) :
  NoDup (User.email <$> users db) ->
  ((forall u, u ∈ users db -> User.email u <> e) ->
     forget_password e urandom db = (Raise EmailNotFound, db))
  /\ (forall u, u ∈ users db -> User.email u = e ->
      exists token,
        (forget_password e urandom db).1 = Return (ResetToken token)
        /\ length token = 32%nat
        /\ Forall is_hexdigit token
        /\ (forall urandom' token',
            (forget_password e urandom' db).1 = Return (ResetToken token') ->
            token = token' <-> forall i, (i < 16)%nat -> urandom i = urandom' i)
        /\ first (where_email e (forget_password e urandom db).2) =
             Some (set_reset_token (Some token) u)
        /\ (forall v, v ∈ users db -> User.id v <> User.id u ->
            v ∈ users (forget_password e urandom db).2)
        /\ length (users (forget_password e urandom db).2) = length (users db)).
Proof.
  intros Hnd. split.
  - intros Hno. apply forget_password_not_found.
    by apply first_where_email_None.
  - intros u Hu He.
    pose proof (first_where_email_unique e db u Hnd Hu He) as Hfirst.
    rewrite (forget_password_found e urandom db u Hfirst).
    exists (token_hex urandom 16). cbn [fst snd].
    split; [done|]. split; [by rewrite length_token_hex|].
    split; [apply hexlify_hexdigits|]. split; [|split; [|split]].
    + intros urandom' token'.
      rewrite (forget_password_found e urandom' db u Hfirst). cbn [fst].
      intros [= <-]. apply token_hex_bytes.
    + rewrite (first_where_email_updated e _ _ db u); [|done..].
      unfold update_row. by rewrite decide_True.
    + intros v Hv Hid. apply elem_of_updated. exists v. split; [done|].
      unfold update_row. by rewrite decide_False.
    + cbn [updated users].
      by rewrite update_rows_Permutation, length_fmap.
Qed.

(** *** reset_password *)

Section ResetPassword.
Context `{UnicodeData}.

Lemma reset_password_refused_token t p db :
  NUL ∈ t -> reset_password t p db = (Raise DBAPIError, db).
Proof.
  intros Ht. unfold reset_password, execute_where_reset_token.
  by rewrite bind_refused.
Qed.





Lemma reset_password_empty_password t db :
  NUL ∉ t ->
  reset_password t [] db =
    (Raise (match first (where_reset_token t db) with
            | None => InvalidToken
            | Some _ => IndexError
            end), db).
Proof.
  intros Hnul. unfold reset_password, execute_where_reset_token.
  rewrite bind_ok by done. by destruct (first _).
Qed.

(** What a redemption leaves behind: the database as it was, or the
    rows of one key with the new password and no token. *)
Lemma reset_password_db t p db :
  (reset_password t p db).2 = db
  \/ exists u, first (where_reset_token t db) = Some u
       /\ validate_password p = Return true
       /\ (reset_password t p db).1 =
            Return (Message "Password reset successfully")
       /\ (reset_password t p db).2 =
            updated (User.id u)
              (fun v => set_reset_token None (set_password p v)) db.
Proof.
  unfold reset_password, execute_where_reset_token, update_commit.
  destruct (bind t); [|by left].
  destruct (first (where_reset_token t db)) as [u|]; [|by left].
  destruct (validate_password p) as [[|]|]; [|by left..].
  destruct (bind p); [|by left]. right. by exists u.
Qed.



End ResetPassword.

(** *** Two reset requests in a row *)

Section Overwrite.
Context `{UnicodeData}.


(** *** Errors and writes *)

(** What a request leaves behind: the database as it was, or, with the
    request answered, one more row or the rows of one key updated. *)
Lemma handle_db r db :
  (handle r db).2 = db
  \/ (exists b, (handle r db).1 = Return b)
     /\ ((exists e p, r = Signup e p
            /\ first (where_email e db) = None
            /\ (handle r db).2 = inserted e p db)
         \/ (exists e rnd u, r = ForgetPassword e rnd
               /\ first (where_email e db) = Some u
               /\ (handle r db).2 =
                    updated (User.id u)
                      (set_reset_token (Some (token_hex rnd 16))) db)
         \/ (exists t p u, r = ResetPassword t p
               /\ first (where_reset_token t db) = Some u
               /\ validate_password p = Return true
               /\ (handle r db).2 =
                    updated (User.id u)
                      (fun v => set_reset_token None (set_password p v)) db)).
Proof.
  destruct r as [em p|em p|em rnd|t p]; simpl.
  - destruct (signup_db em p db) as [?|(? & Hr & ?)]; [by left|].
    right. split; [by eexists|]. left. by exists em, p.
  - left. apply signin_db.
  - destruct (forget_password_db em rnd db) as [?|(u & ? & Hr & ?)]; [by left|].
    right. split; [by eexists|]. right; left. by exists em, rnd, u.
  - destruct (reset_password_db t p db) as [?|(u & ? & ? & Hr & ?)]; [by left|].
    right. split; [by eexists|]. right; right. by exists t, p, u.
Qed.

(** C10. An endpoint that raises leaves the database as it was, and
    [signin] never writes. *)
Theorem raise_leaves_db_unchanged (r : request) (db : Db) :
  (forall e, (handle r db).1 = Raise e -> (handle r db).2 = db)
  /\ (forall email password, (signin email password db).2 = db).
Proof.
  split; [|intros; apply signin_db].
  intros e He. destruct (handle_db r db) as [?|[[b Hb] _]]; [done|].
  congruence.
Qed.

End Overwrite.

(** ** Invariants of the table *)

Lemma schema_ok_empty : schema_ok empty_db.
Proof.
  repeat split; simpl; [constructor| |constructor].
  intros u Hu. by apply elem_of_nil in Hu.
Qed.

Lemma schema_ok_updated pk f db :
  (forall v, User.id (f v) = User.id v) ->
  (forall v, User.email (f v) = User.email v) ->
  schema_ok db -> schema_ok (updated pk f db).
Proof.
  intros Hid Hem (Hids & Hseq & Hemails). unfold schema_ok.
  rewrite ids_updated, emails_updated by done.
  repeat split; [done| |done].
  intros w (v & Hv & ->)%elem_of_updated.
  rewrite update_row_id by done. by apply Hseq.
Qed.

Lemma schema_ok_inserted e p db :
  (forall u, u ∈ users db -> User.email u <> e) ->
  schema_ok db -> schema_ok (inserted e p db).
Proof.
  intros Hfresh (Hids & Hseq & Hemails). unfold schema_ok; simpl.
  rewrite !fmap_app; simpl. repeat split.
  - apply NoDup_app. split; [done|]. split; [|apply NoDup_singleton].
    intros i Hi Hi'. apply list_elem_of_singleton in Hi'. subst i.
    apply list_elem_of_fmap in Hi as (v & Hv & Hin).
    specialize (Hseq v Hin). lia.
  - intros u [Hu|Hu]%elem_of_app.
    + specialize (Hseq u Hu). lia.
    + apply list_elem_of_singleton in Hu. subst u. simpl. lia.
  - apply NoDup_app. split; [done|]. split; [|apply NoDup_singleton].
    intros x Hx Hx'. apply list_elem_of_singleton in Hx'. subst x.
    apply list_elem_of_fmap in Hx as (v & Hv & Hin).
    by apply (Hfresh v Hin).
Qed.

Section Invariants.
Context `{UnicodeData}.

Lemma handle_schema_ok r db : schema_ok db -> schema_ok (handle r db).2.
Proof.
  intros Hok.
  destruct (handle_db r db) as [->|[_ [(e & p & _ & Hno & ->)
    |[(e & rnd & u & _ & _ & ->)|(t & p & u & _ & _ & _ & ->)]]]]; [done|..].
  - apply schema_ok_inserted; [|done]. by apply first_where_email_None.
  - by apply schema_ok_updated.
  - by apply schema_ok_updated.
Qed.

Lemma run_schema_ok rs db : schema_ok db -> schema_ok (run rs db).
Proof.
  revert db. induction rs as [|r rs IH]; intros db Hok; [done|].
  simpl. by apply IH, handle_schema_ok.
Qed.

(** C8. In every database reached from the empty one by a sequence of
    requests, no two rows have the same e-mail: a selection by e-mail has
    at most one row. *)
Theorem email_unique_invariant (rs : list request) :
  NoDup (User.email <$> users (run rs empty_db))
  /\ forall e, (length (where_email e (run rs empty_db)) <= 1)%nat.
Proof.
  destruct (run_schema_ok rs empty_db schema_ok_empty) as (_ & _ & Hem).
  split; [done|]. intros e. by apply (length_filter_unique User.email).
Qed.

End Invariants.

(** *** Reset tokens across users *)

Section Tokens.
Context `{UnicodeData}.

Lemma token_unique_empty : token_unique empty_db.
Proof. intros t. simpl. lia. Qed.

Lemma token_unique_inserted e p db :
  token_unique db -> token_unique (inserted e p db).
Proof.
  intros Hdb t. specialize (Hdb t). unfold where_reset_token in *; simpl.
  rewrite filter_app, length_app, filter_cons, decide_False by done.
  simpl. lia.
Qed.

Lemma token_unique_clear pk p db :
  token_unique db ->
  token_unique
    (updated pk (fun v => set_reset_token None (set_password p v)) db).
Proof.
  intros Hdb t. specialize (Hdb t). unfold where_reset_token in *.
  cbn [updated users]. rewrite length_filter_update_rows.
  etrans; [|exact Hdb].
  apply (length_filter_fmap_le (fun u => User.reset_token u = Some t)
           (fun u => User.reset_token u = Some t)).
  intros x _. unfold update_row. by destruct (decide _).
Qed.

Lemma token_unique_issue u token db :
  NoDup (User.id <$> users db) ->
  (forall v, v ∈ users db -> User.reset_token v = Some token ->
     User.id v = User.id u) ->
  token_unique db ->
  token_unique (updated (User.id u) (set_reset_token (Some token)) db).
Proof.
  intros Hids Hfresh Hdb t. unfold where_reset_token.
  cbn [updated users]. rewrite length_filter_update_rows.
  destruct (decide (t = token)) as [->|Hne].
  - etrans; [|exact (length_filter_unique User.id (users db) (User.id u) Hids)].
    apply (length_filter_fmap_le (fun v => User.reset_token v = Some token)
             (fun v => User.id v = User.id u)).
    intros x Hx. unfold update_row.
    destruct (decide (User.id x = User.id u)); [done|]. by apply Hfresh.
  - etrans; [|exact (Hdb t)].
    apply (length_filter_fmap_le (fun v => User.reset_token v = Some t)
             (fun v => User.reset_token v = Some t)).
    intros x _. unfold update_row.
    destruct (decide (User.id x = User.id u)); [|done].
    simpl. congruence.
Qed.

Lemma handle_token_unique r db :
  schema_ok db -> issues_fresh r db = true ->
  token_unique db -> token_unique (handle r db).2.
Proof.
  intros (Hids & _ & _) Hfresh Hdb.
  destruct (handle_db r db) as [->|[_ [(e & p & _ & Hno & ->)
    |[(e & rnd & u & -> & Hu & ->)|(t & p & u & _ & _ & _ & ->)]]]]; [done|..].
  - by apply token_unique_inserted.
  - apply token_unique_issue; [done| |done].
    intros v Hv Htok. simpl in Hfresh. rewrite Hu in Hfresh.
    rewrite forallb_forall in Hfresh.
    apply list_elem_of_In in Hv.
    apply Hfresh, bool_decide_eq_true in Hv. by apply Hv.
  - by apply token_unique_clear.
Qed.

Lemma run_token_unique rs db :
  schema_ok db -> fresh_tokens rs db = true ->
  token_unique db -> token_unique (run rs db).
Proof.
  revert db. induction rs as [|r rs IH]; intros db Hok Hfresh Hdb; [done|].
  simpl in *. apply andb_true_iff in Hfresh as [Hr Hrs].
  apply IH; [by apply handle_schema_ok | done | by apply handle_token_unique].
Qed.

(** C9. In every database reached from the empty one by a sequence of
    requests in which each issued token was held, when issued, by no
    other user, at most one user holds any given reset token. *)
Theorem token_unique_invariant (rs : list request) :
  fresh_tokens rs empty_db = true ->
  token_unique (run rs empty_db).
Proof.
  intros Hfresh.
  apply run_token_unique; [apply schema_ok_empty | done | apply token_unique_empty].
Qed.

End Tokens.
(** ** Requests in ASCII

    What a request does depends on the Unicode database only through the
    characters of its passwords: on ASCII passwords every database gives
    the same run. *)

Section Ascii.
Context (UD : UnicodeData).

Lemma existsb_isdigit_ascii s :
  ascii_only s = true ->
  existsb (@isdigit UD) s = existsb (@isdigit basic_latin) s.
Proof.
  induction s as [|c s IH]; [done|]. simpl.
  intros [Hc Hs]%andb_true_iff. apply N.ltb_lt in Hc.
  by rewrite IH, isdigit_ascii.
Qed.

Lemma validate_password_ascii p :
  ascii_only p = true ->
  @validate_password UD p = @validate_password basic_latin p.
Proof.
  destruct p as [|c s]; [done|]. intros Hp.
  rewrite !validate_password_cons, existsb_isdigit_ascii by done.
  simpl in Hp. apply andb_true_iff in Hp as [Hc%N.ltb_lt _].
  by rewrite isupper_ascii.
Qed.

Lemma handle_ascii r db :
  ascii_request r = true -> @handle UD r db = @handle basic_latin r db.
Proof.
  destruct r as [em p|em p|em rnd|t p]; simpl; intros Hr; [|done..|].
  - unfold signup. by rewrite validate_password_ascii.
  - unfold reset_password. by rewrite validate_password_ascii.
Qed.

Lemma run_ascii rs db :
  forallb ascii_request rs = true -> @run UD rs db = @run basic_latin rs db.
Proof.
  revert db. induction rs as [|r rs IH]; intros db Hrs; [done|].
  simpl in *. apply andb_true_iff in Hrs as [Hr Hrs].
  by rewrite handle_ascii, IH.
Qed.

End Ascii.

(** ** Scenarios *)

Lemma collision_reaches (UD : UnicodeData) :
  @run UD collision empty_db = db_collision.
Proof. by rewrite run_ascii. Qed.

Lemma reset_password_newpass (UD : UnicodeData) t db :
  @reset_password UD t newpass db = @reset_password basic_latin t newpass db.
Proof. by apply (handle_ascii UD (ResetPassword t newpass)). Qed.



(** C5, witness: Alice signs in. *)
Lemma signin_spec_witness :
  NoDup (User.email <$> users db_alice)
  /\ (signin alice secret db_alice).1 = Return (Message "Login successful")
  /\ (signin alice newpass db_alice).1 = Raise InvalidCredentials
  /\ (signin bob secret db_alice).1 = Raise InvalidCredentials.
Proof.
  assert (Hnd : NoDup (User.email <$> users db_alice)) by apply NoDup_singleton.
  split; [done|].
  destruct (signin_spec alice secret db_alice Hnd) as (Hiff & _).
  split; [|split; reflexivity].
  apply Hiff. exists (User.mk 1 alice secret None).
  split; [left | split; reflexivity].
Defined.

(** C6, counterexample. Alice holds the token [T0] of an earlier request;
    the random source delivers the same bytes again, and the request
    returns [T0]: no new token. *)
Lemma forget_password_token_not_new :
  run [Signup alice secret; ForgetPassword alice zeros] empty_db = db_pending
  /\ User.reset_token <$> first (where_email alice db_pending) = Some (Some T0)
  /\ (forget_password alice zeros db_pending).1 = Return (ResetToken T0)
  /\ (forget_password alice zeros db_pending).2 = db_pending.
Proof. repeat split. Qed.

(** C6, witness: Alice asks for a reset, with two draws. *)
Lemma forget_password_spec_witness :
  NoDup (User.email <$> users db_alice)
  /\ exists token,
       (forget_password alice zeros db_alice).1 = Return (ResetToken token)
       /\ length token = 32%nat
       /\ token <> token_hex ones 16
       /\ first (where_email alice (forget_password alice zeros db_alice).2) =
            Some (User.mk 1 alice secret (Some token)).
Proof.
  assert (Hnd : NoDup (User.email <$> users db_alice)) by apply NoDup_singleton.
  split; [done|].
  destruct (forget_password_spec alice zeros db_alice Hnd) as (_ & Hfound).
  destruct (Hfound (User.mk 1 alice secret None)) as
    (token & Hret & Hlen & _ & Hbytes & Hrow & _); [left | reflexivity |].
  exists token. split; [exact Hret|]. split; [exact Hlen|].
  split; [|exact Hrow].
  intros Heq.
  assert (Hones : (forget_password alice ones db_alice).1
                  = Return (ResetToken (token_hex ones 16))) by reflexivity.
  pose proof (proj1 (Hbytes ones _ Hones) Heq 0%nat ltac:(lia)) as Hbyte.
  discriminate Hbyte.
Defined.



(** C9, counterexample. After the requests of [collision], served from
    the empty database, the two users hold the token [T0], under every
    Unicode database. *)
Lemma token_shared_after_collision :
  run collision empty_db = db_collision
  /\ length (where_reset_token T0 db_collision) = 2%nat
  /\ ~ exists UD : UnicodeData, token_unique (@run UD collision empty_db).
Proof.
  split; [reflexivity|]. split; [reflexivity|].
  intros [UD Hx]. rewrite (collision_reaches UD) in Hx.
  specialize (Hx T0). vm_compute in Hx. lia.
Qed.

(** C9, witness: the scenario issues fresh tokens. *)
Lemma token_unique_invariant_witness :
  fresh_tokens scenario empty_db = true
  /\ token_unique (run scenario empty_db).
Proof.
  assert (Hfresh : fresh_tokens scenario empty_db = true) by reflexivity.
  split; [done|]. exact (token_unique_invariant scenario Hfresh).
Defined.

(** C10, witness: a sign-in with a wrong password. *)
Lemma raise_leaves_db_unchanged_witness :
  (handle (Signin alice newpass) db_alice).1 = Raise InvalidCredentials
  /\ (handle (Signin alice newpass) db_alice).2 = db_alice.
Proof.
  assert (Hraise : (handle (Signin alice newpass) db_alice).1
                   = Raise InvalidCredentials) by reflexivity.
  split; [done|].
  exact (proj1 (raise_leaves_db_unchanged (Signin alice newpass) db_alice)
           InvalidCredentials Hraise).
Defined.

(** The example of the specification: Alice registers, signs in, asks
    for a reset, redeems the token, and from then on signs in with the new
    password only. The same holds under every Unicode database. *)
Example alice_scenario (UD : UnicodeData) :
  let db1 := (@signup UD alice secret empty_db).2 in
  let db2 := (forget_password alice zeros db1).2 in
  let db3 := (@reset_password UD T0 newpass db2).2 in
  (@signup UD alice secret empty_db).1 =
    Return (Message "User registered successfully")
  /\ (signin alice secret db1).1 = Return (Message "Login successful")
  /\ (forget_password alice zeros db1).1 = Return (ResetToken T0)
  /\ (@reset_password UD T0 newpass db2).1 =
       Return (Message "Password reset successfully")
  /\ (signin alice secret db3).1 = Raise InvalidCredentials
  /\ (signin alice newpass db3).1 = Return (Message "Login successful")
  /\ (@reset_password UD T0 newpass db3).1 = Raise InvalidToken.
Proof.
  cbv zeta. rewrite !(reset_password_newpass UD).
  pose proof (handle_ascii UD (Signup alice secret) empty_db eq_refl) as Hs.
  cbn [handle] in Hs. rewrite !Hs.
  vm_compute. by repeat split.
Qed.

(** ** More on the validator *)

Section ValidatorOutcomes.
Context `{UnicodeData}.

(** The validator raises on the empty password only, and then
    [IndexError]; it returns [False] exactly on a non-empty password whose
    first character is not upper case, or that has no ['@'], or no
    digit. *)
Theorem validate_password_outcomes (p : str) :
  (forall e, validate_password p = Raise e <-> p = [] /\ e = IndexError)
  /\ (validate_password p = Return false <->
      exists c rest, p = c :: rest
        /\ (isupper c = false
            \/ at_sign ∉ p
            \/ forall d, d ∈ p -> isdigit d = false)).
Proof.
  destruct p as [|c rest].
  - rewrite validate_password_nil. split.
    + intros e. split; [by intros [= <-] | by intros [_ ->]].
    + split; [discriminate | by intros (? & ? & ? & _)].
  - rewrite validate_password_cons. split.
    + intros e. split; [discriminate | by intros [? _]].
    + split.
      * intros [= Hb]. exists c, rest. split; [done|].
        apply andb_false_iff in Hb as [Hb|Hd].
        -- apply andb_false_iff in Hb as [Hu|Ha]; [by left|].
           right; left. by apply bool_decide_eq_false in Ha.
        -- right; right. intros d Hd'.
           destruct (isdigit d) eqn:E; [|done].
           assert (existsb isdigit (c :: rest) = true) as Hex
             by (apply existsb_elem_of; eauto).
           simpl in Hex, Hd. congruence.
      * intros (c' & rest' & [= <- <-] & Hcases). f_equal.
        destruct Hcases as [Hu|[Ha|Hd]].
        -- by rewrite Hu.
        -- unfold contains. rewrite (bool_decide_eq_false_2 _ Ha).
           by rewrite andb_false_r.
        -- destruct (existsb isdigit (c :: rest)) eqn:E;
             [|by rewrite andb_false_r].
           apply existsb_elem_of in E as (d & Hd' & Hdd).
           rewrite (Hd d Hd') in Hdd. discriminate.
Qed.

Lemma existsb_app_l {A} (f : A -> bool) (l k : list A) :
  existsb f l = true -> existsb f (l ++ k) = true.
Proof. intros Hl. by rewrite existsb_app, Hl. Qed.

(** The policy looks at nothing past what makes a password valid: a
    valid password stays valid with any characters appended. *)
Theorem validate_password_app (p s : str) :
  validate_password p = Return true ->
  validate_password (p ++ s) = Return true.
Proof.
  destruct p as [|c rest]; [by rewrite validate_password_nil|].
  rewrite <- app_comm_cons, !validate_password_cons. intros [= Hb].
  apply andb_true_iff in Hb as [Hb Hd].
  apply andb_true_iff in Hb as [Hu Ha]. apply bool_decide_eq_true in Ha.
  rewrite app_comm_cons, (existsb_app_l isdigit (c :: rest) s Hd), Hu.
  unfold contains.
  rewrite bool_decide_eq_true_2; [done|].
  apply elem_of_app. by left.
Qed.

End ValidatorOutcomes.

Lemma two_elements {A} (l : list A) (x y : A) :
  x ∈ l -> y ∈ l -> x <> y -> (2 <= length l)%nat.
Proof.
  destruct l as [|a [|b l]]; simpl; intros Hx Hy Hne; [| |lia].
  - by apply elem_of_nil in Hx.
  - apply list_elem_of_singleton in Hx, Hy. congruence.
Qed.

(** On an ASCII password every Unicode database gives the same verdict:
    valid exactly when the first character is one of [A]-[Z], the password
    has ['@'] and has one of [0]-[9]; a valid one has at least three
    characters. *)
Theorem validate_password_ascii_iff (UD : UnicodeData) (p : str) :
  ascii_only p = true ->
  (@validate_password UD p = Return true <->
     (exists c rest, p = c :: rest /\ 65 <= c <= 90)
     /\ at_sign ∈ p
     /\ (exists d, d ∈ p /\ 48 <= d <= 57))
  /\ (@validate_password UD p = Return true -> (3 <= length p)%nat).
Proof.
  intros Hp. rewrite (validate_password_ascii UD p Hp).
  assert (Hiff : @validate_password basic_latin p = Return true <->
     (exists c rest, p = c :: rest /\ 65 <= c <= 90)
     /\ at_sign ∈ p
     /\ (exists d, d ∈ p /\ 48 <= d <= 57)).
  { destruct p as [|c rest].
    - rewrite validate_password_nil. split; [discriminate|].
      by intros ((? & ? & ? & _) & _).
    - rewrite validate_password_cons. split.
      + intros [= Hb]. apply andb_true_iff in Hb as [Hb Hd].
        apply andb_true_iff in Hb as [Hu Ha].
        apply bool_decide_eq_true in Hu, Ha.
        apply (existsb_elem_of (@isdigit basic_latin) (c :: rest)) in Hd
          as (d & Hd & Hdd).
        apply (bool_decide_eq_true (48 <= d <= 57)) in Hdd.
        split; [by exists c, rest|]. split; [done | by exists d].
      + intros ((c' & rest' & [= <- <-] & Hc) & Ha & (d & Hd & Hdd)).
        f_equal. apply andb_true_iff. split; [apply andb_true_iff; split|].
        * by apply bool_decide_eq_true_2.
        * by apply bool_decide_eq_true_2.
        * apply existsb_elem_of. exists d. split; [done|].
          by apply bool_decide_eq_true_2. }
  split; [exact Hiff|].
  intros ((c & rest & -> & Hc) & Ha & (d & Hd & Hdd))%Hiff.
  unfold at_sign in Ha.
  apply elem_of_cons in Ha as [Ha|Ha]; [lia|].
  apply elem_of_cons in Hd as [Hd|Hd].
  - lia.
  - simpl. pose proof (two_elements rest 64 d Ha Hd). lia.
Qed.

(** ** More on the endpoints *)

Lemma where_email_inserted e' e p db :
  where_email e' (inserted e p db) =
    where_email e' db
    ++ (if decide (e = e') then [User.mk (users_id_seq db) e p None] else []).
Proof.
  unfold where_email, inserted; simpl. rewrite filter_app, filter_cons.
  simpl. by destruct (decide (e = e')).
Qed.

Section MoreEndpoints.
Context `{UnicodeData}.


(** A successful sign-up is followed by a successful sign-in with the
    same e-mail and password, and by a refused one with any other
    password; sign-ins with other e-mails go as before. *)
Theorem signup_then_signin (e p : str) (db : Db) (b : body) :
  (signup e p db).1 = Return b ->
  (signin e p (signup e p db).2).1 = Return (Message "Login successful")
  /\ (forall q, q <> p ->
      (signin e q (signup e p db).2).1 = Raise InvalidCredentials)
  /\ (forall e' q, e' <> e ->
      (signin e' q (signup e p db).2).1 = (signin e' q db).1).
Proof.
  unfold signup, add_commit.
  destruct (validate_password p) as [[|]|]; [|done..].
  destruct (first (where_email e db)) as [u|] eqn:E; [done|].
  destruct (bind p); [|done].
  intros _. cbn [snd]. apply head_None in E.
  split; [|split].
  - rewrite signin_first, where_email_inserted, E, decide_True by done.
    simpl. by rewrite bool_decide_eq_true_2.
  - intros q Hq.
    rewrite signin_first, where_email_inserted, E, decide_True by done.
    simpl. by rewrite bool_decide_eq_false_2.
  - intros e' q He'.
    rewrite !signin_first, where_email_inserted, decide_False by done.
    by rewrite app_nil_r.
Qed.

(** The HTTP errors of each endpoint: [signup] raises its two 400s and no
    other, [signin] the 401, [forget_password] the 404, [reset_password]
    its two 400s. *)
Theorem handle_raises (r : request) (db : Db) (status : Z) (detail : string) :
  (handle r db).1 = Raise (HTTPException status detail) ->
  match r with
  | Signup _ _ =>
      HTTPException status detail = WeakPassword
      \/ HTTPException status detail = EmailTaken
  | Signin _ _ => HTTPException status detail = InvalidCredentials
  | ForgetPassword _ _ => HTTPException status detail = EmailNotFound
  | ResetPassword _ _ =>
      HTTPException status detail = InvalidToken
      \/ HTTPException status detail = WeakPassword
  end.
Proof.
  destruct r as [em p|em p|em rnd|t p]; simpl.
  - unfold signup, add_commit. destruct p as [|c rest].
    + by rewrite validate_password_nil.
    + rewrite validate_password_cons. destruct (_ && _).
      * destruct (first _); [intros [= <- <-]; by right|].
        by destruct (bind_cases (c :: rest)) as [[_ ->]|[_ ->]].
      * intros [= <- <-]. by left.
  - rewrite signin_first. destruct (first _); [|by intros [= <- <-]].
    destruct (bool_decide _); [done | by intros [= <- <-]].
  - destruct (forget_password_db em rnd db) as [_|(u & _ & -> & _)]; [|done].
    unfold forget_password, update_commit. destruct (first _).
    + by destruct (bind_cases (token_hex rnd 16)) as [[_ ->]|[_ ->]].
    + by intros [= <- <-].
  - unfold reset_password, execute_where_reset_token, update_commit.
    destruct (bind_cases t) as [[_ ->]|[_ ->]]; [|done].
    destruct (first _); [|intros [= <- <-]; by left].
    destruct p as [|c rest].
    + by rewrite validate_password_nil.
    + rewrite validate_password_cons. destruct (_ && _).
      * by destruct (bind_cases (c :: rest)) as [[_ ->]|[_ ->]].
      * intros [= <- <-]. by right.
Qed.

(** The validator's exception reaches the caller: a request ends in
    [IndexError] exactly when it is a sign-up with the empty password, or
    a redemption with the empty password of a token without U+0000 that
    some user holds. *)
Theorem handle_index_error_iff (r : request) (db : Db) :
  (handle r db).1 = Raise IndexError <->
    (exists e, r = Signup e [])
    \/ (exists t, r = ResetPassword t []
          /\ (NUL ∉ t)
          /\ exists u, u ∈ users db /\ User.reset_token u = Some t).
Proof.
  split.
  - destruct r as [em p|em p|em rnd|t p]; simpl.
    + unfold signup, add_commit. destruct p as [|c rest]; [left; by exists em|].
      rewrite validate_password_cons. destruct (_ && _); [|done].
      destruct (first _); [done|].
      by destruct (bind_cases (c :: rest)) as [[_ ->]|[_ ->]].
    + rewrite signin_first. destruct (first _); [|done].
      by destruct (bool_decide _).
    + destruct (forget_password_db em rnd db) as [_|(u & _ & -> & _)]; [|done].
      unfold forget_password, update_commit. destruct (first _); [|done].
      by destruct (bind_cases (token_hex rnd 16)) as [[_ ->]|[_ ->]].
    + destruct (bind_cases t) as [[Hnul _]|[Hnul _]];
        [|by rewrite reset_password_refused_token].
      unfold reset_password, execute_where_reset_token, update_commit.
      rewrite (bind_ok t) by done.
      destruct (first (where_reset_token t db)) as [u|] eqn:E; [|done].
      destruct p as [|c rest].
      * intros _. right. exists t. split; [done|]. split; [done|]. exists u.
        by apply first_where_reset_token_Some.
      * rewrite validate_password_cons. destruct (_ && _); [|done].
        by destruct (bind_cases (c :: rest)) as [[_ ->]|[_ ->]].
  - intros [[e ->]|(t & -> & Hnul & u & Hu & Ht)]; simpl; [done|].
    rewrite reset_password_empty_password by done. cbn [fst].
    destruct (first_where_reset_token_held t db u Hu Ht) as [y Hy].
    by rewrite Hy.
Qed.

End MoreEndpoints.

(** A reset request writes the [reset_token] column and nothing else: the
    keys, e-mails and passwords in the table are as before; under the
    [UNIQUE] constraint on [email] so is the outcome of every sign-in, and
    under unique primary keys the rows of users with another e-mail are
    untouched. *)
Theorem forget_password_frame (e : str) (urandom : nat -> byte) (db : Db) :
  (fun u => (User.id u, User.email u, User.password u))
     <$> users (forget_password e urandom db).2
    ≡ₚ (fun u => (User.id u, User.email u, User.password u)) <$> users db
  /\ (NoDup (User.email <$> users db) ->
      forall e' p',
        (signin e' p' (forget_password e urandom db).2).1 = (signin e' p' db).1)
  /\ (NoDup (User.id <$> users db) ->
      forall v, v ∈ users db -> User.email v <> e ->
        v ∈ users (forget_password e urandom db).2).
Proof.
  destruct (forget_password_db e urandom db) as [->|(u & Hu & _ & ->)];
    [by repeat split|].
  split; [|split].
  - by apply fmap_update_rows.
  - intros Hnd e' p'. rewrite !signin_first.
    destruct (first (where_email e' db)) as [w|] eqn:E.
    + destruct (first_where_email_Some e' db w E) as [Hw Hwe].
      rewrite (first_where_email_updated e' _ _ db w); [|done..].
      unfold update_row. by destruct (decide _).
    + by rewrite first_where_email_updated_None.
  - intros Hids v Hv Hve. apply elem_of_updated. exists v.
    split; [done|]. unfold update_row.
    destruct (decide (User.id v = User.id u)) as [Hid|]; [|done].
    apply first_where_email_Some in Hu as [Hu Hue].
    destruct Hve. by rewrite (NoDup_fmap_elem_inj User.id _ v u Hids Hv Hu Hid).
Qed.

(** ** Rows over time *)

Section Rows.
Context `{UnicodeData}.


Lemma handle_row r db v :
  v ∈ users db ->
  exists v', v' ∈ users (handle r db).2
    /\ User.id v' = User.id v /\ User.email v' = User.email v.
Proof.
  intros Hv.
  destruct (handle_db r db) as [->|[_ [(e & p & _ & Hno & ->)
    |[(e & rnd & u & _ & _ & ->)|(t & p & u & _ & _ & _ & ->)]]]].
  - by exists v.
  - exists v. split; [|done]. cbn [inserted users]. apply elem_of_app. by left.
  - eexists. split; [apply elem_of_updated; by exists v|].
    unfold update_row. by destruct (decide _).
  - eexists. split; [apply elem_of_updated; by exists v|].
    unfold update_row. by destruct (decide _).
Qed.

Lemma run_row rs db v :
  v ∈ users db ->
  exists v', v' ∈ users (run rs db)
    /\ User.id v' = User.id v /\ User.email v' = User.email v.
Proof.
  revert db v. induction rs as [|r rs IH]; intros db v Hv; [by exists v|].
  simpl. destruct (handle_row r db v Hv) as (v1 & Hv1 & Hid1 & Hem1).
  destruct (IH _ v1 Hv1) as (v' & Hv' & Hid & Hem).
  exists v'. split; [done|]. split; congruence.
Qed.

(** No request deletes a user or changes a key or an e-mail: a user in
    the table is in it after any sequence of requests, with the same key
    and e-mail, and no later sign-up with that e-mail succeeds. *)
Theorem registered_stays_registered
    (rs : list request) (db : Db) (v : User.t) :
  v ∈ users db ->
  (exists v', v' ∈ users (run rs db)
     /\ User.id v' = User.id v /\ User.email v' = User.email v)
  /\ (forall p b, (signup (User.email v) p (run rs db)).1 <> Return b).
Proof.
  intros Hv. destruct (run_row rs db v Hv) as (v' & Hv' & Hid & Hem).
  split; [by exists v'|]. intros p b. unfold signup.
  destruct (validate_password p) as [[|]|]; [|done..].
  destruct (head_filter_is_Some (fun u => User.email u = User.email v)
              (users (run rs db)) v') as [y Hy]; [done..|].
  unfold first, where_email. by rewrite Hy.
Qed.

(** *** Tokens and keys in reachable databases *)




Lemma keys_drawn_handle r db : keys_drawn db -> keys_drawn (handle r db).2.
Proof.
  intros [Hseq Hkeys].
  destruct (handle_db r db) as [->|[_ [(e & p & _ & Hno & ->)
    |[(e & rnd & u & _ & _ & ->)|(t & p & u & _ & _ & _ & ->)]]]]; [done|..].
  - split; simpl; [lia|]. intros w [Hw|Hw]%elem_of_app.
    + specialize (Hkeys w Hw). lia.
    + apply list_elem_of_singleton in Hw. subst w. simpl. lia.
  - split; [done|]. intros w (v & Hv & ->)%elem_of_updated.
    rewrite update_row_id by done. by apply Hkeys.
  - split; [done|]. intros w (v & Hv & ->)%elem_of_updated.
    rewrite update_row_id by done. by apply Hkeys.
Qed.

Lemma keys_drawn_run rs db : keys_drawn db -> keys_drawn (run rs db).
Proof.
  revert db. induction rs as [|r rs IH]; intros db Hdb; [done|].
  simpl. by apply IH, keys_drawn_handle.
Qed.

(** In every database reached from the empty one the primary keys are
    pairwise distinct, at least 1 and below the next value of the
    sequence. *)
Theorem primary_key_invariant (rs : list request) :
  NoDup (User.id <$> users (run rs empty_db))
  /\ forall u, u ∈ users (run rs empty_db) ->
       (1 <= User.id u < users_id_seq (run rs empty_db))%Z.
Proof.
  destruct (run_schema_ok rs empty_db schema_ok_empty) as (Hids & _ & _).
  split; [done|]. apply keys_drawn_run. split; simpl; [lia|].
  intros u Hu. by apply elem_of_nil in Hu.
Qed.

End Rows.

(** ** From a reset request to the new password *)

Section Lifecycle.
Context `{UnicodeData}.


End Lifecycle.

(** ** Further scenarios *)




(** A valid password, and the same with a tail. *)
Lemma validate_password_app_witness :
  validate_password secret = Return true
  /\ validate_password (secret ++ py " and more") = Return true.
Proof.
  assert (Hp : validate_password secret = Return true) by reflexivity.
  split; [exact Hp|]. exact (validate_password_app secret _ Hp).
Defined.

(** The shortest kind of valid password. *)
Lemma validate_password_ascii_iff_witness :
  ascii_only (py "A@1") = true
  /\ validate_password (py "A@1") = Return true
  /\ (3 <= length (py "A@1"))%nat.
Proof.
  assert (Ha : ascii_only (py "A@1") = true) by reflexivity.
  assert (Hp : validate_password (py "A@1") = Return true) by reflexivity.
  split; [exact Ha|]. split; [exact Hp|].
  exact (proj2 (validate_password_ascii_iff basic_latin (py "A@1") Ha) Hp).
Defined.

(** Bob signs up beside Alice and signs in. *)
Lemma signup_then_signin_witness :
  (signup bob secret db_alice).1 = Return (Message "User registered successfully")
  /\ (signin bob secret (signup bob secret db_alice).2).1 =
       Return (Message "Login successful")
  /\ (signin bob newpass (signup bob secret db_alice).2).1 =
       Raise InvalidCredentials.
Proof.
  assert (Hs : (signup bob secret db_alice).1 =
               Return (Message "User registered successfully")) by reflexivity.
  destruct (signup_then_signin bob secret db_alice _ Hs) as (Hin & Hother & _).
  split; [exact Hs|]. split; [exact Hin|]. apply Hother. discriminate.
Defined.

(** A reset request for an unknown e-mail. *)
Lemma handle_raises_witness :
  (handle (ForgetPassword bob zeros) db_alice).1
    = Raise (HTTPException 404 "Email not found")
  /\ HTTPException 404 "Email not found" = EmailNotFound.
Proof.
  assert (Hr : (handle (ForgetPassword bob zeros) db_alice).1
               = Raise (HTTPException 404 "Email not found")) by reflexivity.
  split; [exact Hr|].
  exact (handle_raises (ForgetPassword bob zeros) db_alice _ _ Hr).
Defined.


(** Alice stays registered through the scenario. *)
Lemma registered_stays_registered_witness :
  User.mk 1 alice secret None ∈ users db_alice
  /\ (exists v', v' ∈ users (run scenario db_alice)
        /\ User.id v' = 1%Z /\ User.email v' = alice)
  /\ forall p b, (signup alice p (run scenario db_alice)).1 <> Return b.
Proof.
  assert (Hv : User.mk 1 alice secret None ∈ users db_alice) by left.
  split; [exact Hv|].
  exact (registered_stays_registered scenario db_alice _ Hv).
Defined.

